(** * RiboGrove helper scripts: a shallow embedding and its properties

    The development follows the scripts of the repository:

    - [PyStr]: the few operations of Python's [str] the scripts use
      ([strip], [replace], [join], [readlines]);
    - [Tblout]: [reformat_tblout] of [compare_all_seqs_to_cm.py] and
      [find_truncated_genes.py] (the two copies are the same text);
    - [TopLongest]: [make_ribogrove_top_longest_df] of [top_longest_genes.py];
    - [Cmpress]: [run_cmpress] of [compare_all_seqs_to_cm.py];
    - [GisToAccs]: the chunk loop of [gis_to_accs.py];
    - [MergeStats]: the two left merges of [merge_bases_categories_taxonomy.py].

    Text is a list of characters; a character is an [ascii], read as a code
    point below 256. *)

From Stdlib Require Import String Ascii List ZArith Lia Bool Arith PeanoNat.
From Stdlib Require Import Permutation Sorted.
Import ListNotations.

Set Implicit Arguments.

(* Comparisons of characters stay folded under [simpl]. *)
Arguments Ascii.eqb : simpl never.

(** ** Python strings *)

Module PyStr.

Definition str := list ascii.

(** A string literal of the source. *)
Definition lit (s : string) : str := list_ascii_of_string s.

Definition sp : ascii := " "%char.
Definition tab : ascii := ascii_of_nat 9.
Definition nl : ascii := ascii_of_nat 10.
Definition hash : ascii := "#"%char.
Definition underscore : ascii := "_"%char.

(** [str.isspace] on one character, for code points below 256: the controls
    9..13 and 28..31, the space, NEL (133) and the no-break space (160). *)
Definition isspace (c : ascii) : bool :=
  let n := nat_of_ascii c in
  ((9 <=? n) && (n <=? 13)) || ((28 <=? n) && (n <=? 32))
  || (n =? 133) || (n =? 160).

Fixpoint lstrip (s : str) : str :=
  match s with
  | [] => []
  | c :: t => if isspace c then lstrip t else s
  end.

Definition rstrip (s : str) : str := rev (lstrip (rev s)).

(** [s.strip()] *)
Definition strip (s : str) : str := rstrip (lstrip s).

(** [s.startswith(p)] *)
Fixpoint startswith (p s : str) : bool :=
  match p, s with
  | [], _ => true
  | _ :: _, [] => false
  | a :: p', b :: s' => Ascii.eqb a b && startswith p' s'
  end.

(** [s.replace(old, new)] for a non-empty [old]: the text is scanned from the
    left; where [old] starts, [new] is emitted and the scan resumes behind the
    occurrence, otherwise one character is copied.  [skip] counts the
    characters of the current occurrence that are still to be passed over. *)
Fixpoint replace_from (old new : str) (skip : nat) (s : str) : str :=
  match s with
  | [] => []
  | c :: t =>
      match skip with
      | S k => replace_from old new k t
      | O =>
          if startswith old s
          then new ++ replace_from old new (length old - 1) t
          else c :: replace_from old new 0 t
      end
  end.

Definition replace (old new s : str) : str := replace_from old new 0 s.

(** [sep.join(xs)] *)
Fixpoint join (sep : str) (xs : list str) : str :=
  match xs with
  | [] => []
  | x :: rest =>
      match rest with
      | [] => x
      | _ :: _ => x ++ sep ++ join sep rest
      end
  end.

(** [f.readlines()] on the text of a file: every line keeps its newline, the
    last one has none when the text does not end in one. *)
Fixpoint readlines (s : str) : list str :=
  match s with
  | [] => []
  | c :: t =>
      if Ascii.eqb c nl then [c] :: readlines t
      else match readlines t with
           | [] => [[c]]
           | l :: ls => (c :: l) :: ls
           end
  end.

(** [old in s] *)
Fixpoint occurs (old s : str) : bool :=
  startswith old s ||
  match s with
  | [] => false
  | _ :: t => occurs old t
  end.

(** No white space at either end. *)
Definition trimmed (s : str) : Prop :=
  forall c, (hd_error s = Some c \/ hd_error (rev s) = Some c) ->
            isspace c = false.

(** No newline in the text. *)
Definition no_nl (s : str) : Prop := ~ In nl s.

End PyStr.

(** ** [reformat_tblout]: the table of [cmscan] as tab-separated text *)

Module Tblout.
Import PyStr.

(** The names of the columns; [tblout_header] is the source's literal, the
    names with a tab between them. *)
Definition tblout_columns : list str :=
  map lit
    [ "target_name"; "accession"; "query_name"; "accession"; "mdl";
      "mdl_from"; "mdl_to"; "seq_from"; "seq_to"; "strand"; "trunc"; "pass";
      "gc"; "bias"; "score"; "Evalue"; "inc"; "description_of_target" ]%string.

Definition tblout_header : str := join [tab] tblout_columns.

(** [' ' * space_num] *)
Definition spaces (space_num : nat) : str := repeat sp space_num.

(** [range(20, 1, -1)]: 20, 19, ..., 2 *)
Definition space_nums : list nat := rev (seq 2 19).

Definition label_bacterial : str := lit "Bacterial small subunit ribosomal RNA".
Definition label_bacterial_ : str := lit "Bacterial_small_subunit_ribosomal_RNA".
Definition label_archaeal : str := lit "Archaeal small subunit ribosomal RNA".
Definition label_archaeal_ : str := lit "Archaeal_small_subunit_ribosomal_RNA".

(** [lambda x: x[0] != '#'].  A line of [readlines] is never empty (see
    [readlines_nonempty]), so the first case is not met. *)
Definition not_comment (x : str) : bool :=
  match x with
  | [] => true
  | c :: _ => negb (Ascii.eqb c hash)
  end.

(** Read all lines except of those starting with #, stripped. *)
Definition read_lines (content : str) : list str :=
  map strip (filter not_comment (readlines content)).

(** First loop, on one line: for [space_num] from 20 down to 2, every run of
    [space_num] spaces becomes one space. *)
Definition collapse_spaces (line : str) : str :=
  fold_left (fun l space_num => replace (spaces space_num) [sp] l)
            space_nums line.

(** Second loop, on one line: the two labels get underscores. *)
Definition underscore_labels (line : str) : str :=
  replace label_archaeal label_archaeal_
    (replace label_bacterial label_bacterial_ line).

(** Third loop, on one line: spaces become tabs. *)
Definition spaces_to_tabs (line : str) : str := replace [sp] [tab] line.

(** The list [lines] as it is written: the three loops run one after the
    other, each over all lines. *)
Definition reformat_lines (content : str) : list str :=
  map spaces_to_tabs
    (map underscore_labels (map collapse_spaces (read_lines content))).

(** [reformat_tblout]: from the text of the file to the text that overwrites
    it. *)
Definition reformat_tblout (content tblout_header : str) : str :=
  tblout_header ++ [nl] ++ join [nl] (reformat_lines content) ++ [nl].

(** What the three loops do to one line of the file. *)
Definition reformat_line (x : str) : str :=
  spaces_to_tabs (underscore_labels (collapse_spaces (strip x))).

(** The order of the specification's contract (step 3 before steps 4 and 5):
    the labels first, then the runs of spaces, then the tabs. *)
Definition reformat_line_labels_first (x : str) : str :=
  spaces_to_tabs (collapse_spaces (underscore_labels (strip x))).

(** *** Runs of spaces *)

(** What one pass [replace(' ' * k, ' ')] leaves of a run of [n] spaces: one
    space for each full group of [k], and the rest of the run. *)
Definition run_after (k n : nat) : nat := n / k + n mod k.

(** What the first loop leaves of a run of [n] spaces. *)
Definition collapsed_run (n : nat) : nat :=
  fold_left (fun n k => run_after k n) space_nums n.

(** *** Lines made of fields *)

(** A word: not empty, no white space in it. *)
Definition is_word (w : str) : bool :=
  match w with
  | [] => false
  | _ :: _ => forallb (fun c => negb (isspace c)) w
  end.

(** A line of fields: the first field, then each further field with the
    number of spaces before it.  [None] is the line without fields. *)
Definition fields_line : Type := option (str * list (nat * str)).

Definition gapped (rest : list (nat * str)) : str :=
  flat_map (fun nw => spaces (fst nw) ++ snd nw) rest.

Definition render (d : fields_line) : str :=
  match d with
  | None => []
  | Some (w, rest) => w ++ gapped rest
  end.

Definition fields (d : fields_line) : list str :=
  match d with
  | None => []
  | Some (w, rest) => w :: map snd rest
  end.

(** Single-word fields, separated by runs of 1 to 19 spaces. *)
Definition conforming_line (d : fields_line) : bool :=
  match d with
  | None => true
  | Some (w, rest) =>
      is_word w &&
      forallb (fun nw => (1 <=? fst nw) && (fst nw <=? 19) && is_word (snd nw))
              rest
  end.

(** Neither label occurs in the fields once they stand one space apart. *)
Definition label_free (d : fields_line) : bool :=
  negb (occurs label_bacterial (join [sp] (fields d)))
  && negb (occurs label_archaeal (join [sp] (fields d))).

(** A line of the input file: a comment (the text behind its [#]) or a line
    of fields. *)
Inductive input_line : Type :=
| Comment (text : str)
| Data (d : fields_line).

Definition line_text (l : input_line) : str :=
  match l with
  | Comment text => hash :: text
  | Data d => render d
  end.

(** The text of a file with these lines, each closed by a newline. *)
Definition file_text (ls : list input_line) : str :=
  flat_map (fun l => line_text l ++ [nl]) ls.

Definition data_lines (ls : list input_line) : list fields_line :=
  flat_map (fun l => match l with Comment _ => [] | Data d => [d] end) ls.

Definition no_newline (s : str) : bool :=
  forallb (fun c => negb (Ascii.eqb c nl)) s.

(** A conforming input: comments of one line each, and data lines of
    single-word fields 1 to 19 spaces apart that do not begin with [#]. *)
Definition conforming_input (ls : list input_line) : bool :=
  forallb
    (fun l =>
       match l with
       | Comment text => no_newline text
       | Data d => conforming_line d && not_comment (render d)
       end) ls.

(** The lines of a written file behind its header, without their newlines. *)
Definition chomp (l : str) : str :=
  match rev l with
  | c :: r => if Ascii.eqb c nl then rev r else l
  | [] => l
  end.

Definition lines_behind_header (out : str) : list str :=
  map chomp (tl (readlines out)).

(** The text of a written file behind its header line. *)
Definition drop_header (out : str) : str := concat (tl (readlines out)).

(** A space may become this character, every other one stays. *)
Definition space_to (u : ascii) (a b : ascii) : Prop := a = b \/ (a = sp /\ b = u).

(** *** Sample files *)

(** A comment, a line of four fields and a line without fields. *)
Definition sample_input : list input_line :=
  [ Comment (lit "target name  accession");
    Data (Some (lit "SSU_rRNA_archaea",
                [(3, lit "RF01959"); (1, lit "NZ_CP1"); (19, lit "!")]));
    Data None ].

(** One line of five single-word fields, one space apart. *)
Definition label_words_input : list input_line :=
  [ Data (Some (lit "Bacterial",
                [(1, lit "small"); (1, lit "subunit"); (1, lit "ribosomal");
                 (1, lit "RNA")])) ].

(** A file of one comment line, as [cmscan] writes when nothing is found. *)
Definition comments_only_input : list input_line :=
  [ Comment (lit "target name  accession") ].

End Tblout.

(** * Properties *)

(** ** Python strings *)

Module PyStrFacts.
Import PyStr.

(** *** Facts on [startswith] *)

Lemma startswith_app (p r : str) : startswith p (p ++ r) = true.
Proof.
  induction p as [|a p IH]; simpl; [reflexivity|].
  now rewrite Ascii.eqb_refl, IH.
Qed.

Lemma startswith_inv (p s : str) :
  startswith p s = true -> s = p ++ skipn (length p) s.
Proof.
  revert s; induction p as [|a p IH]; intros s H; simpl in *; [reflexivity|].
  destruct s as [|b s]; [discriminate|].
  apply andb_true_iff in H as [Hab H].
  apply Ascii.eqb_eq in Hab; subst b.
  simpl. f_equal. now apply IH.
Qed.

Lemma startswith_In (p s : str) c :
  startswith p s = true -> In c p -> In c s.
Proof.
  intros H Hc. rewrite (startswith_inv p s H). apply in_or_app; now left.
Qed.

Lemma startswith_head (a : ascii) (p : str) (b : ascii) (s : str) :
  a <> b -> startswith (a :: p) (b :: s) = false.
Proof.
  intros H; simpl. apply Ascii.eqb_neq in H. now rewrite H.
Qed.

(** *** Facts on [replace] *)

Lemma replace_from_skipn (old new : str) (k : nat) (s : str) :
  replace_from old new k s = replace_from old new 0 (skipn k s).
Proof.
  revert k; induction s as [|c t IH]; intros [|k]; simpl; try reflexivity.
  apply IH.
Qed.

(** The equation of [replace], as the scan is described. *)
Lemma replace_cons (old new : str) (c : ascii) (t : str) :
  old <> [] ->
  replace old new (c :: t) =
    if startswith old (c :: t)
    then new ++ replace old new (skipn (length old) (c :: t))
    else c :: replace old new t.
Proof.
  intros Hold. unfold replace at 1. cbn [replace_from].
  destruct (startswith old (c :: t)); [|reflexivity].
  f_equal. rewrite replace_from_skipn. unfold replace. f_equal.
  destruct old as [|a old]; [contradiction|]. simpl. now rewrite Nat.sub_0_r.
Qed.

Lemma replace_nil (old new : str) : replace old new [] = [].
Proof. reflexivity. Qed.

(** A character that is not the first of [old] is copied. *)
Lemma replace_head (a : ascii) (old new : str) (c : ascii) (t : str) :
  a <> c ->
  replace (a :: old) new (c :: t) = c :: replace (a :: old) new t.
Proof.
  intros H. rewrite replace_cons by discriminate.
  now rewrite startswith_head.
Qed.

(** Where [old] occurs nowhere, nothing changes. *)
Lemma replace_absent (old new s : str) :
  occurs old s = false -> replace old new s = s.
Proof.
  induction s as [|c t IH]; intros H; [reflexivity|].
  simpl in H. apply orb_false_iff in H as [H1 H2].
  unfold replace in *. cbn [replace_from]. rewrite H1. f_equal. now apply IH.
Qed.

Lemma occurs_In (old s : str) (c : ascii) :
  occurs old s = true -> In c old -> In c s.
Proof.
  induction s as [|b t IH]; simpl; intros H Hc.
  - rewrite orb_false_r in H. now apply (startswith_In _ _ c H).
  - apply orb_true_iff in H as [H|H].
    + now apply (startswith_In _ _ c H).
    + right. now apply IH.
Qed.

Lemma replace_missing_char (old new s : str) (c : ascii) :
  In c old -> ~ In c s -> replace old new s = s.
Proof.
  intros Hc Hs. apply replace_absent.
  destruct (occurs old s) eqn:E; [|reflexivity].
  exfalso. apply Hs. now apply (occurs_In old s c).
Qed.

Lemma startswith_app_l (p a r : str) :
  startswith p a = true -> startswith p (a ++ r) = true.
Proof.
  intros H. rewrite (startswith_inv p a H), <- app_assoc.
  apply startswith_app.
Qed.

(** An occurrence cannot reach a character that is not in [old]. *)
Lemma startswith_before (p a : str) (c : ascii) (b : str) :
  ~ In c p -> startswith p (a ++ c :: b) = true ->
  startswith p a = true /\ length p <= length a.
Proof.
  revert a; induction p as [|x p IH]; intros a Hc H.
  - split; [reflexivity | simpl; lia].
  - destruct a as [|y a]; simpl in H.
    + apply andb_true_iff in H as [Hx _]. apply Ascii.eqb_eq in Hx.
      exfalso. apply Hc. now left.
    + apply andb_true_iff in H as [Hx H].
      destruct (IH a) as [H1 H2]; [intros Hin; apply Hc; now right | exact H |].
      simpl. rewrite Hx, H1. split; [reflexivity | lia].
Qed.

(** [replace] works on the two sides of a character that is not in [old]
    one after the other. *)
Lemma replace_app_split (old new a : str) (c : ascii) (b : str) :
  old <> [] -> ~ In c old ->
  replace old new (a ++ c :: b) = replace old new a ++ replace old new (c :: b).
Proof.
  intros Hold Hc.
  remember (length a) as n eqn:Hn.
  revert a Hn; induction n as [n IH] using lt_wf_ind; intros a Hn.
  destruct a as [|x a]; [reflexivity|].
  rewrite <- app_comm_cons.
  rewrite (replace_cons new x (a ++ c :: b) Hold).
  rewrite (replace_cons new x a Hold).
  destruct (startswith old (x :: a ++ c :: b)) eqn:E.
  - destruct (startswith_before old (x :: a) c b Hc E) as [E1 Hlen].
    rewrite E1. rewrite <- app_assoc. f_equal.
    rewrite app_comm_cons, skipn_app.
    replace (length old - length (x :: a)) with 0 by lia.
    cbn [skipn].
    apply (IH (length (skipn (length old) (x :: a)))); [|reflexivity].
    rewrite length_skipn. subst n.
    destruct old; [contradiction | simpl; lia].
  - assert (E1 : startswith old (x :: a) = false).
    { destruct (startswith old (x :: a)) eqn:E1; [|reflexivity].
      apply startswith_app_l with (r := c :: b) in E1.
      rewrite <- app_comm_cons in E1. congruence. }
    rewrite E1. simpl. f_equal.
    apply (IH (length a)); [subst n; simpl; lia | reflexivity].
Qed.

(** Characters that differ from the first of [old] are copied. *)
Lemma replace_prefix_copied (a : ascii) (old new w r : str) :
  ~ In a w ->
  replace (a :: old) new (w ++ r) = w ++ replace (a :: old) new r.
Proof.
  induction w as [|c w IH]; intros H; [reflexivity|].
  rewrite <- app_comm_cons, replace_head.
  - rewrite <- app_comm_cons. f_equal. apply IH. intros Hin. apply H. now right.
  - intros ->. apply H. now left.
Qed.

(** [replace] relates the text to the result character by character when it
    does so for [old] and [new]. *)
Lemma replace_pointwise (R : ascii -> ascii -> Prop) (old new s : str) :
  old <> [] -> (forall c, R c c) -> Forall2 R old new ->
  Forall2 R s (replace old new s).
Proof.
  intros Hold Hrefl HR.
  remember (length s) as n eqn:Hn.
  revert s Hn; induction n as [n IH] using lt_wf_ind; intros s Hn.
  destruct s as [|c t]; [constructor|].
  rewrite replace_cons by exact Hold.
  destruct (startswith old (c :: t)) eqn:E.
  - rewrite (startswith_inv old (c :: t) E) at 1.
    apply Forall2_app; [exact HR|].
    apply (IH (length (skipn (length old) (c :: t)))); [|reflexivity].
    rewrite length_skipn. subst n. destruct old; [contradiction | simpl; lia].
  - constructor; [apply Hrefl|].
    apply (IH (length t)); [subst n; simpl; lia | reflexivity].
Qed.

(** Replacing one character by one character is a [map]. *)
Lemma replace_char (a b : ascii) (s : str) :
  replace [a] [b] s = map (fun c => if Ascii.eqb a c then b else c) s.
Proof.
  induction s as [|c t IH]; [reflexivity|].
  rewrite replace_cons by discriminate. simpl.
  destruct (Ascii.eqb a c); simpl; now rewrite IH.
Qed.

(** *** [strip] *)

Lemma lstrip_hd (s : str) :
  (forall c, hd_error s = Some c -> isspace c = false) -> lstrip s = s.
Proof.
  destruct s as [|c t]; [reflexivity|]. intros H. simpl.
  now rewrite (H c eq_refl).
Qed.

Lemma lstrip_is_hd (s : str) (c : ascii) :
  hd_error (lstrip s) = Some c -> isspace c = false.
Proof.
  induction s as [|x t IH]; simpl; [discriminate|].
  destruct (isspace x) eqn:E; [exact IH|].
  simpl. intros [= <-]. exact E.
Qed.

Lemma lstrip_suffix (s : str) : exists ws, s = ws ++ lstrip s.
Proof.
  induction s as [|x t [ws IH]]; [now exists []|]. simpl.
  destruct (isspace x).
  - exists (x :: ws). simpl. now f_equal.
  - now exists [].
Qed.

Lemma lstrip_app_keep (s r : str) (c : ascii) :
  isspace c = false -> lstrip (s ++ c :: r) = lstrip s ++ c :: r
                       \/ lstrip s = [].
Proof.
  intros Hc. induction s as [|x t IH]; [now right|]. simpl.
  destruct (isspace x); [exact IH | now left].
Qed.

Lemma strip_trimmed (s : str) : trimmed s -> strip s = s.
Proof.
  intros H. unfold strip, rstrip.
  rewrite (lstrip_hd s) by (intros c Hc; apply H; now left).
  rewrite (lstrip_hd (rev s)) by (intros c Hc; apply H; now right).
  apply rev_involutive.
Qed.

Lemma hd_error_rev_lstrip (s : str) (c : ascii) :
  hd_error (rev (lstrip s)) = Some c -> hd_error (rev s) = Some c.
Proof.
  destruct (lstrip_suffix s) as [ws E]. intros H.
  rewrite E, rev_app_distr.
  destruct (rev (lstrip s)) as [|y r]; [discriminate|]. exact H.
Qed.

Lemma strip_is_trimmed (s : str) : trimmed (strip s).
Proof.
  unfold strip, rstrip. intros c [H|H].
  - (* the first character *)
    remember (lstrip s) as u eqn:Hu.
    destruct (lstrip_suffix (rev u)) as [ws E].
    assert (Hrev : u = rev (lstrip (rev u)) ++ rev ws).
    { rewrite <- (rev_involutive u) at 1. rewrite E at 1.
      now rewrite rev_app_distr. }
    destruct (rev (lstrip (rev u))) as [|y r] eqn:Er; [discriminate|].
    simpl in H. injection H as ->.
    apply (@lstrip_is_hd s). rewrite <- Hu, Hrev. reflexivity.
  - rewrite rev_involutive in H. now apply (lstrip_is_hd _ H).
Qed.

Lemma strip_In (s : str) (c : ascii) : In c (strip s) -> In c s.
Proof.
  unfold strip, rstrip. intros H. apply in_rev in H.
  destruct (lstrip_suffix (rev (lstrip s))) as [ws E].
  assert (H1 : In c (rev (lstrip s))) by (rewrite E; apply in_or_app; now right).
  apply in_rev in H1.
  destruct (lstrip_suffix s) as [ws' E']. rewrite E'.
  apply in_or_app; now right.
Qed.

(** White space behind the text is dropped. *)
Lemma strip_app_space (s : str) (c : ascii) :
  isspace c = true -> strip (s ++ [c]) = strip s.
Proof.
  intros Hc. unfold strip, rstrip.
  destruct (lstrip_suffix s) as [ws E].
  assert (Hl : lstrip (s ++ [c]) = lstrip s ++ [c] \/
               (lstrip s = [] /\ lstrip (s ++ [c]) = [])).
  { clear E. induction s as [|x t IH]; simpl.
    - rewrite Hc. now right.
    - destruct (isspace x); [exact IH | now left]. }
  destruct Hl as [Hl | [Hl1 Hl2]].
  - rewrite Hl, rev_app_distr. simpl. now rewrite Hc.
  - now rewrite Hl1, Hl2.
Qed.

(** *** [readlines] and [join] *)

Lemma readlines_line (l rest : str) :
  no_nl l -> readlines (l ++ nl :: rest) = (l ++ [nl]) :: readlines rest.
Proof.
  induction l as [|c l IH]; intros H.
  - simpl. reflexivity.
  - simpl. destruct (Ascii.eqb c nl) eqn:E.
    + apply Ascii.eqb_eq in E. exfalso. apply H. now left.
    + rewrite IH; [reflexivity|]. intros Hin. apply H. now right.
Qed.

Lemma readlines_nonempty (s l : str) : In l (readlines s) -> l <> [].
Proof.
  revert l; induction s as [|c t IH]; intros l; simpl; [tauto|].
  destruct (Ascii.eqb c nl).
  - intros [<-|H]; [discriminate | now apply IH].
  - destruct (readlines t) as [|l0 ls].
    + intros [<-|[]]. discriminate.
    + intros [<-|H]; [discriminate|]. apply IH. now right.
Qed.

(** A line of [readlines] holds a newline at its end or nowhere. *)
Lemma readlines_shape (s l : str) :
  In l (readlines s) -> exists body, no_nl body /\ (l = body ++ [nl] \/ l = body).
Proof.
  revert l; induction s as [|c t IH]; intros l; simpl; [tauto|].
  destruct (Ascii.eqb c nl) eqn:E.
  - apply Ascii.eqb_eq in E. subst c. intros [<-|H]; [|now apply IH].
    exists []. split; [intros [] | now left].
  - apply Ascii.eqb_neq in E.
    destruct (readlines t) as [|l0 ls].
    + intros [<-|[]]. exists [c]. split; [|now right].
      intros [H|[]]. now apply E.
    + intros [<-|H]; [|apply IH; now right].
      destruct (IH l0 (or_introl eq_refl)) as [body [Hb Hl]].
      exists (c :: body). split.
      * intros [H|H]; [now apply E | now apply Hb].
      * destruct Hl as [->| ->]; [now left | now right].
Qed.

Lemma readlines_joined (ls : list str) :
  Forall no_nl ls ->
  readlines (flat_map (fun l => l ++ [nl]) ls) = map (fun l => l ++ [nl]) ls.
Proof.
  induction 1 as [|l ls Hl _ IH]; [reflexivity|].
  simpl. rewrite <- app_assoc. simpl. rewrite readlines_line by exact Hl.
  now rewrite IH.
Qed.

Lemma join_nl_closed (l : str) (ls : list str) :
  join [nl] (l :: ls) ++ [nl] = flat_map (fun l => l ++ [nl]) (l :: ls).
Proof.
  revert l; induction ls as [|l' ls IH]; intros l.
  - simpl. now rewrite app_nil_r.
  - change (join [nl] (l :: l' :: ls)) with (l ++ [nl] ++ join [nl] (l' :: ls)).
    rewrite <- app_assoc. rewrite <- (app_assoc [nl]). rewrite IH.
    cbn [flat_map]. now rewrite <- !app_assoc.
Qed.

(** [replace] brings in no character but those of [new]. *)
Lemma replace_In (old new s : str) (c : ascii) :
  old <> [] -> In c (replace old new s) -> In c s \/ In c new.
Proof.
  intros Hold.
  remember (length s) as n eqn:Hn.
  revert s Hn; induction n as [n IH] using lt_wf_ind; intros s Hn.
  destruct s as [|x t]; [intros []|].
  rewrite replace_cons by exact Hold.
  destruct (startswith old (x :: t)) eqn:E.
  - intros H. apply in_app_or in H as [H|H]; [now right|].
    apply (IH (length (skipn (length old) (x :: t)))) in H.
    + destruct H as [H|H]; [left | now right].
      rewrite <- (firstn_skipn (length old) (x :: t)). apply in_or_app. now right.
    + rewrite length_skipn. subst n. destruct old; [contradiction | simpl; lia].
    + reflexivity.
  - intros [->|H]; [left; now left|].
    apply (IH (length t)) in H; [|subst n; simpl; lia | reflexivity].
    destruct H as [H|H]; [left; now right | now right].
Qed.

Lemma concat_readlines (s : str) : concat (readlines s) = s.
Proof.
  induction s as [|c t IH]; [reflexivity|]. simpl.
  destruct (Ascii.eqb c nl).
  - simpl. now rewrite IH.
  - destruct (readlines t) as [|l ls]; simpl in *; now rewrite <- IH.
Qed.

End PyStrFacts.

(** ** [reformat_tblout] *)

Module TbloutFacts.
Import PyStr PyStrFacts Tblout.

Lemma spaces_S (k : nat) : spaces (S k) = sp :: spaces k.
Proof. reflexivity. Qed.

Lemma In_spaces (c : ascii) (k : nat) : In c (spaces k) -> c = sp.
Proof. intros H. exact (repeat_spec _ _ _ H). Qed.

Lemma isspace_not_sp (c : ascii) : isspace c = false -> c <> sp.
Proof. intros H ->. discriminate H. Qed.

Lemma isspace_not_nl (c : ascii) : isspace c = false -> c <> nl.
Proof. intros H ->. discriminate H. Qed.

Lemma space_nums_pos : Forall (fun k => 1 <= k) space_nums.
Proof. unfold space_nums. simpl. repeat constructor; lia. Qed.

(** How a text ends. *)
Lemma ends (s : str) : s = [] \/ exists a d, s = a ++ [d] /\ hd_error (rev s) = Some d.
Proof.
  destruct (rev s) as [|d r] eqn:E.
  - left. apply (f_equal (@rev ascii)) in E. now rewrite rev_involutive in E.
  - right. exists (rev r), d. split; [|reflexivity].
    apply (f_equal (@rev ascii)) in E. now rewrite rev_involutive in E.
Qed.

Lemma trimmed_nil : trimmed [].
Proof. intros c [H|H]; discriminate H. Qed.

Lemma trimmed_intro (c : ascii) (t a : str) (d : ascii) :
  c :: t = a ++ [d] -> isspace c = false -> isspace d = false ->
  trimmed (c :: t).
Proof.
  intros E Hc Hd x [H|H].
  - simpl in H. now injection H as <-.
  - rewrite E, rev_app_distr in H. simpl in H. now injection H as <-.
Qed.

Lemma trimmed_inv (s : str) :
  trimmed s ->
  s = [] \/ exists c t a d, s = c :: t /\ s = a ++ [d]
                            /\ isspace c = false /\ isspace d = false.
Proof.
  intros H. destruct s as [|c t]; [now left|]. right.
  destruct (ends (c :: t)) as [E|[a [d [E Hd]]]]; [discriminate|].
  exists c, t, a, d. repeat split; try assumption.
  - apply H. now left.
  - apply H. now right.
Qed.

(** *** The three loops on one line *)

(** One pass of the first loop keeps the ends of a trimmed line. *)
Lemma collapse_pass_trimmed (k : nat) (s : str) :
  1 <= k -> trimmed s -> trimmed (replace (spaces k) [sp] s).
Proof.
  intros Hk H.
  destruct (trimmed_inv H) as [->|[c [t [a [d [E1 [E2 [Hc Hd]]]]]]]].
  - apply trimmed_nil.
  - destruct k as [|k]; [lia|]. rewrite spaces_S.
    assert (Hl : replace (sp :: spaces k) [sp] s
                 = replace (sp :: spaces k) [sp] a ++ [d]).
    { rewrite E2, replace_app_split.
      - f_equal. rewrite replace_head; [reflexivity|].
        intros Heq. now apply (isspace_not_sp Hd).
      - discriminate.
      - intros Hin. apply (isspace_not_sp Hd).
        apply (@In_spaces d (S k)). exact Hin. }
    assert (Hf : replace (sp :: spaces k) [sp] s
                 = c :: replace (sp :: spaces k) [sp] t).
    { rewrite E1. apply replace_head. intros Heq. now apply (isspace_not_sp Hc). }
    rewrite Hf. apply trimmed_intro with (a := replace (sp :: spaces k) [sp] a) (d := d).
    + now rewrite <- Hf, Hl.
    + exact Hc.
    + exact Hd.
Qed.

Lemma collapse_spaces_trimmed (s : str) : trimmed s -> trimmed (collapse_spaces s).
Proof.
  unfold collapse_spaces. generalize space_nums_pos.
  generalize space_nums as ks. intros ks; revert s.
  induction ks as [|k ks IH]; intros s Hks H; [exact H|].
  simpl. inversion Hks; subst. apply IH; [assumption|].
  now apply collapse_pass_trimmed.
Qed.

(** Texts that agree wherever the first holds no white space. *)
Lemma pointwise_trimmed (R : ascii -> ascii -> Prop) (s s' : str) :
  (forall a b, R a b -> isspace a = false -> b = a) ->
  Forall2 R s s' -> trimmed s -> trimmed s'.
Proof.
  intros HR HF H.
  destruct (trimmed_inv H) as [->|[c [t [a [d [E1 [E2 [Hc Hd]]]]]]]].
  - inversion HF. apply trimmed_nil.
  - pose proof HF as HF2. rewrite E1 in HF. rewrite E2 in HF2.
    inversion HF as [|? c' ? t' Hcc HFt]; subst.
    apply Forall2_app_inv_l in HF2 as [a' [l2 [Ha [Hl2 E]]]].
    inversion Hl2 as [|? d' ? ? Hdd Hnil]; subst. inversion Hnil; subst.
    rewrite (HR _ _ Hcc Hc) in *. rewrite (HR _ _ Hdd Hd) in *.
    now apply trimmed_intro with (a := a') (d := d).
Qed.

Lemma space_to_keeps (u a b : ascii) : space_to u a b -> isspace a = false -> b = a.
Proof. intros [->|[-> _]] H; [reflexivity | discriminate H]. Qed.

Lemma space_to_map (u : ascii) (s : str) :
  Forall2 (space_to u) s (map (fun c => if Ascii.eqb c sp then u else c) s).
Proof.
  induction s as [|c s IH]; constructor; [|exact IH].
  destruct (Ascii.eqb c sp) eqn:E; [right | now left].
  apply Ascii.eqb_eq in E. now split.
Qed.

Lemma label_bacterial_pointwise :
  Forall2 (space_to underscore) label_bacterial label_bacterial_.
Proof.
  replace label_bacterial_
    with (map (fun c => if Ascii.eqb c sp then underscore else c) label_bacterial)
    by (vm_compute; reflexivity).
  apply space_to_map.
Qed.

Lemma label_archaeal_pointwise :
  Forall2 (space_to underscore) label_archaeal label_archaeal_.
Proof.
  replace label_archaeal_
    with (map (fun c => if Ascii.eqb c sp then underscore else c) label_archaeal)
    by (vm_compute; reflexivity).
  apply space_to_map.
Qed.

Lemma underscore_labels_pointwise (s : str) :
  exists s1, Forall2 (space_to underscore) s s1
             /\ Forall2 (space_to underscore) s1 (underscore_labels s).
Proof.
  exists (replace label_bacterial label_bacterial_ s). split.
  - apply replace_pointwise; [discriminate | now left | apply label_bacterial_pointwise].
  - apply replace_pointwise; [discriminate | now left | apply label_archaeal_pointwise].
Qed.

Lemma underscore_labels_trimmed (s : str) :
  trimmed s -> trimmed (underscore_labels s).
Proof.
  intros H. destruct (underscore_labels_pointwise s) as [s1 [H1 H2]].
  apply (pointwise_trimmed (@space_to_keeps underscore) H2).
  now apply (pointwise_trimmed (@space_to_keeps underscore) H1).
Qed.

Lemma spaces_to_tabs_map (s : str) :
  spaces_to_tabs s = map (fun c => if Ascii.eqb sp c then tab else c) s.
Proof. apply replace_char. Qed.

Lemma spaces_to_tabs_pointwise (s : str) :
  Forall2 (space_to tab) s (spaces_to_tabs s).
Proof.
  rewrite spaces_to_tabs_map. induction s as [|c t IH]; constructor; [|exact IH].
  destruct (Ascii.eqb sp c) eqn:E; [right | now left].
  apply Ascii.eqb_eq in E. now split.
Qed.

Lemma spaces_to_tabs_trimmed (s : str) : trimmed s -> trimmed (spaces_to_tabs s).
Proof.
  apply (pointwise_trimmed (@space_to_keeps tab)), spaces_to_tabs_pointwise.
Qed.

(** The third loop leaves no space. *)
Lemma spaces_to_tabs_no_space (s : str) : ~ In sp (spaces_to_tabs s).
Proof.
  rewrite spaces_to_tabs_map. intros H. apply in_map_iff in H as [c [Hc _]].
  destruct (Ascii.eqb sp c) eqn:E; [discriminate Hc|].
  apply Ascii.eqb_neq in E. now apply E.
Qed.

(** A line without a space goes through the three loops as it is. *)
Lemma collapse_spaces_no_space (s : str) : ~ In sp s -> collapse_spaces s = s.
Proof.
  intros H. unfold collapse_spaces. generalize space_nums_pos.
  generalize space_nums as ks.
  induction ks as [|k ks IH]; intros Hks; [reflexivity|].
  simpl. inversion Hks; subst.
  rewrite (@replace_missing_char (spaces k) [sp] s sp); [now apply IH| |exact H].
  destruct k; [lia | now left].
Qed.

Lemma underscore_labels_no_space (s : str) : ~ In sp s -> underscore_labels s = s.
Proof.
  intros H. unfold underscore_labels.
  rewrite (@replace_missing_char label_bacterial label_bacterial_ s sp);
    [| unfold label_bacterial; simpl; tauto | exact H].
  apply (@replace_missing_char label_archaeal label_archaeal_ s sp);
    [unfold label_archaeal; simpl; tauto | exact H].
Qed.

Lemma spaces_to_tabs_no_space_id (s : str) : ~ In sp s -> spaces_to_tabs s = s.
Proof.
  intros H. apply (@replace_missing_char [sp] [tab] s sp); [now left | exact H].
Qed.

(** The three loops bring in no newline. *)
Lemma collapse_spaces_In (s : str) (c : ascii) :
  In c (collapse_spaces s) -> In c s \/ c = sp.
Proof.
  unfold collapse_spaces. generalize space_nums_pos.
  generalize space_nums as ks. intros ks; revert s.
  induction ks as [|k ks IH]; intros s Hks H; [now left|].
  simpl in H. inversion Hks; subst. apply IH in H; [|assumption].
  destruct H as [H|H]; [|now right].
  apply replace_In in H.
  - destruct H as [H|[H|[]]]; [now left | right; now symmetry].
  - destruct k; [lia | discriminate].
Qed.

Lemma pointwise_In (u : ascii) (s s' : str) (c : ascii) :
  Forall2 (space_to u) s s' -> In c s' -> In c s \/ c = u.
Proof.
  induction 1 as [|a b s s' Hab _ IH]; [intros []|].
  intros [<-|H].
  - destruct Hab as [->|[_ ->]]; [left; now left | now right].
  - destruct (IH H) as [H1|H1]; [left; now right | now right].
Qed.

Lemma reformat_no_nl (s : str) :
  no_nl s -> no_nl (spaces_to_tabs (underscore_labels (collapse_spaces s))).
Proof.
  intros H Hin.
  destruct (@pointwise_In tab _ _ _ (spaces_to_tabs_pointwise _) Hin)
    as [Hin1|E]; [|discriminate E].
  destruct (underscore_labels_pointwise (collapse_spaces s)) as [s1 [H1 H2]].
  destruct (@pointwise_In underscore _ _ _ H2 Hin1) as [Hin2|E];
    [|discriminate E].
  destruct (@pointwise_In underscore _ _ _ H1 Hin2) as [Hin3|E];
    [|discriminate E].
  destruct (collapse_spaces_In _ _ Hin3) as [Hin4|E]; [exact (H Hin4) | discriminate E].
Qed.

(** *** The lines that are written *)

Lemma reformat_lines_map (content : str) :
  reformat_lines content
  = map reformat_line (filter not_comment (readlines content)).
Proof.
  unfold reformat_lines, read_lines, reformat_line. now rewrite !map_map.
Qed.

Lemma strip_readline (content x : str) :
  In x (readlines content) -> no_nl (strip x) /\ trimmed (strip x).
Proof.
  intros H. split; [|apply strip_is_trimmed].
  destruct (readlines_shape _ _ H) as [body [Hb [->| ->]]].
  - rewrite strip_app_space by reflexivity. intros Hin. now apply Hb, strip_In.
  - intros Hin. now apply Hb, strip_In.
Qed.

(** A written line: no space, no newline, no white space at its ends. *)
Lemma written_line (content l : str) :
  In l (reformat_lines content) -> ~ In sp l /\ no_nl l /\ trimmed l.
Proof.
  rewrite reformat_lines_map. intros H.
  apply in_map_iff in H as [x [<- Hx]].
  apply filter_In in Hx as [Hx _].
  destruct (strip_readline _ _ Hx) as [H1 H2].
  unfold reformat_line. split; [apply spaces_to_tabs_no_space|]. split.
  - now apply reformat_no_nl.
  - now apply spaces_to_tabs_trimmed, underscore_labels_trimmed,
      collapse_spaces_trimmed.
Qed.

(** Such a line, read back with its newline, is written again as it is. *)
Lemma reformat_line_fixed (l : str) :
  ~ In sp l -> trimmed l -> reformat_line (l ++ [nl]) = l.
Proof.
  intros Hsp Ht. unfold reformat_line.
  rewrite strip_app_space by reflexivity. rewrite (strip_trimmed Ht).
  rewrite (collapse_spaces_no_space _ Hsp).
  rewrite (underscore_labels_no_space _ Hsp).
  now apply spaces_to_tabs_no_space_id.
Qed.

Lemma chomp_line (l : str) : chomp (l ++ [nl]) = l.
Proof.
  unfold chomp. rewrite rev_app_distr. simpl. apply rev_involutive.
Qed.

(** The text that is written, line by line. *)
Lemma readlines_written (content header : str) :
  no_nl header ->
  readlines (reformat_tblout content header)
  = (header ++ [nl]) ::
    match reformat_lines content with
    | [] => [[nl]]
    | l :: ls => map (fun l => l ++ [nl]) (l :: ls)
    end.
Proof.
  intros Hh. unfold reformat_tblout. simpl.
  rewrite readlines_line by exact Hh. f_equal.
  pose proof (written_line content) as Hw.
  destruct (reformat_lines content) as [|l ls]; [reflexivity|].
  rewrite join_nl_closed. apply readlines_joined.
  apply Forall_forall. intros x Hx. now apply Hw.
Qed.

Lemma no_newline_no_nl (s : str) : no_newline s = true -> no_nl s.
Proof.
  unfold no_newline. intros H Hin.
  rewrite forallb_forall in H. specialize (H nl Hin).
  now rewrite Ascii.eqb_refl in H.
Qed.

Lemma not_comment_line (l : str) :
  not_comment l = true -> not_comment (l ++ [nl]) = true.
Proof. destruct l; [reflexivity | exact (fun H => H)]. Qed.

(** Read back, the written lines are the same lines. *)
Lemma reformat_lines_again (l : str) (ls : list str) :
  Forall (fun x => ~ In sp x /\ no_nl x /\ trimmed x) (l :: ls) ->
  forallb not_comment (l :: ls) = true ->
  reformat_lines (flat_map (fun l => l ++ [nl]) (l :: ls)) = l :: ls.
Proof.
  generalize (l :: ls) as xs. clear l ls. intros xs Hw Hc.
  rewrite reformat_lines_map, readlines_joined.
  - induction Hw as [|x xs [Hsp [_ Ht]] _ IH]; [reflexivity|].
    simpl in Hc. apply andb_true_iff in Hc as [Hx Hc].
    simpl. rewrite (not_comment_line _ Hx). simpl.
    rewrite (reformat_line_fixed Hsp Ht). f_equal. now apply IH.
  - apply Forall_forall. intros x Hx.
    rewrite Forall_forall in Hw. now apply Hw.
Qed.

(** Running [reformat_tblout] on what it wrote, the header line taken away,
    writes the same text again, when no written line begins with [#]. *)
Lemma reformat_twice (content header : str) :
  no_newline header = true ->
  forallb not_comment (reformat_lines content) = true ->
  reformat_tblout (drop_header (reformat_tblout content header)) header
  = reformat_tblout content header.
Proof.
  intros Hh Hc. apply no_newline_no_nl in Hh.
  unfold drop_header. rewrite (readlines_written content Hh). cbn [tl].
  pose proof (written_line content) as Hw.
  unfold reformat_tblout at 2.
  destruct (reformat_lines content) as [|l ls] eqn:E.
  - reflexivity.
  - unfold reformat_tblout. do 2 f_equal.
    rewrite <- flat_map_concat_map.
    rewrite reformat_lines_again; [reflexivity | | exact Hc].
    apply Forall_forall. intros x Hx. now apply Hw.
Qed.

(** C10, as the code has it.  For every text of the input file and every
    header of one line: the lines of the written file behind its header hold
    no space at all; when the input has a line that does not start with [#],
    they are the non-comment lines of the input, each taken through
    [reformat_line], as many and in the same order; when it has none, the
    written file still holds one line behind the header, an empty one. *)
Theorem written_lines_tab_delimited (content header : str) :
  no_newline header = true ->
  let written := map reformat_line (filter not_comment (readlines content)) in
  Forall (fun l => ~ In sp l) (lines_behind_header (reformat_tblout content header))
  /\ (written <> [] ->
      lines_behind_header (reformat_tblout content header) = written)
  /\ (written = [] ->
      lines_behind_header (reformat_tblout content header) = [[]]).
Proof.
  intros Hh written. apply no_newline_no_nl in Hh.
  unfold lines_behind_header. rewrite (readlines_written content Hh). cbn [tl].
  pose proof (written_line content) as Hw.
  subst written. rewrite <- reformat_lines_map.
  destruct (reformat_lines content) as [|l ls].
  - split; [|split].
    + repeat constructor. intros [].
    + intros H. now contradiction H.
    + reflexivity.
  - assert (E : map chomp (map (fun l => l ++ [nl]) (l :: ls)) = l :: ls).
    { rewrite map_map. rewrite <- (map_id (l :: ls)) at 2.
      apply map_ext. intros x. apply chomp_line. }
    rewrite E. split; [|split].
    + apply Forall_forall. intros x Hx. now apply Hw.
    + reflexivity.
    + discriminate.
Qed.

End TbloutFacts.

(** ** [reformat_tblout] on lines of fields *)

Module TbloutFields.
Import PyStr PyStrFacts Tblout TbloutFacts.

Lemma is_word_spec (w : str) :
  is_word w = true -> w <> [] /\ (forall c, In c w -> isspace c = false).
Proof.
  destruct w as [|x w]; [discriminate|]. unfold is_word. intros H.
  split; [discriminate|]. intros c Hc.
  rewrite forallb_forall in H. specialize (H c Hc).
  now apply negb_true_iff in H.
Qed.

Lemma word_no_sp (w : str) : is_word w = true -> ~ In sp w.
Proof.
  intros H Hin. destruct (is_word_spec w H) as [_ Hw].
  specialize (Hw sp Hin). discriminate Hw.
Qed.

Lemma word_hd (w r : str) : is_word w = true -> hd_error (w ++ r) <> Some sp.
Proof.
  intros H. destruct (is_word_spec w H) as [Hne Hw].
  destruct w as [|c w]; [contradiction|]. simpl. intros [= ->].
  specialize (Hw sp (or_introl eq_refl)). discriminate Hw.
Qed.

(** *** One pass of the first loop *)

Lemma startswith_spaces (k n : nat) (rest : str) :
  hd_error rest <> Some sp ->
  startswith (spaces k) (spaces n ++ rest) = (k <=? n).
Proof.
  intros Hr. revert n; induction k as [|k IH]; intros n; [reflexivity|].
  destruct n as [|n].
  - destruct rest as [|c rest]; unfold spaces;
      cbn [repeat app startswith Nat.leb]; [reflexivity|].
    destruct (Ascii.eqb sp c) eqn:E; [|reflexivity].
    apply Ascii.eqb_eq in E. subst c. now contradiction Hr.
  - change (startswith (spaces (S k)) (spaces (S n) ++ rest))
      with (Ascii.eqb sp sp && startswith (spaces k) (spaces n ++ rest)).
    now rewrite Ascii.eqb_refl, IH.
Qed.

Lemma skipn_spaces (k n : nat) (rest : str) :
  k <= n -> skipn k (spaces n ++ rest) = spaces (n - k) ++ rest.
Proof.
  revert n; induction k as [|k IH]; intros n H.
  - now rewrite Nat.sub_0_r.
  - destruct n as [|n]; [lia|]. simpl. apply IH. lia.
Qed.

Lemma run_after_small (k n : nat) : n < k -> run_after k n = n.
Proof.
  intros H. unfold run_after.
  now rewrite Nat.div_small, Nat.mod_small by exact H.
Qed.

Lemma run_after_step (k n : nat) :
  1 <= k -> k <= n -> run_after k n = S (run_after k (n - k)).
Proof.
  intros Hk H. unfold run_after.
  replace n with ((n - k) + 1 * k) at 1 2 by lia.
  rewrite Nat.div_add, Nat.Div0.mod_add by lia. lia.
Qed.

Lemma run_after_pos (k n : nat) : 1 <= k -> 1 <= n -> 1 <= run_after k n.
Proof.
  intros Hk Hn. destruct (Nat.lt_ge_cases n k) as [H|H].
  - rewrite run_after_small by exact H. exact Hn.
  - rewrite run_after_step by assumption. lia.
Qed.

(** A run of [n] spaces, closed by another character or by the end. *)
Lemma replace_run (k n : nat) (rest : str) :
  1 <= k -> hd_error rest <> Some sp ->
  replace (spaces k) [sp] (spaces n ++ rest)
  = spaces (run_after k n) ++ replace (spaces k) [sp] rest.
Proof.
  intros Hk Hr. induction n as [n IH] using lt_wf_ind.
  destruct n as [|n].
  - rewrite run_after_small by lia. reflexivity.
  - assert (Hne : spaces k <> []) by (destruct k; [lia | discriminate]).
    change (spaces (S n) ++ rest) with (sp :: (spaces n ++ rest)).
    rewrite replace_cons by exact Hne.
    change (sp :: (spaces n ++ rest)) with (spaces (S n) ++ rest).
    rewrite startswith_spaces by exact Hr.
    destruct (k <=? S n) eqn:E.
    + apply Nat.leb_le in E.
      unfold spaces at 2. rewrite repeat_length. fold (spaces (S n)).
      rewrite skipn_spaces by exact E.
      rewrite IH by lia. rewrite (run_after_step Hk E). reflexivity.
    + apply Nat.leb_gt in E. rewrite IH by lia.
      rewrite !run_after_small by lia. reflexivity.
Qed.

(** The words of a line, with the spaces before each. *)
Definition words_ok (rest : list (nat * str)) : Prop :=
  Forall (fun nw => is_word (snd nw) = true) rest.

Lemma replace_gapped (k : nat) (rest : list (nat * str)) :
  1 <= k -> words_ok rest ->
  replace (spaces k) [sp] (gapped rest)
  = gapped (map (fun nw => (run_after k (fst nw), snd nw)) rest).
Proof.
  intros Hk. induction 1 as [|[n w] rest Hw _ IH]; [reflexivity|].
  simpl in Hw. unfold gapped in *. simpl. rewrite <- !app_assoc.
  rewrite replace_run; [|exact Hk | now apply word_hd].
  f_equal. destruct k as [|k]; [lia|]. rewrite spaces_S.
  rewrite replace_prefix_copied by now apply word_no_sp.
  f_equal. rewrite <- spaces_S. exact IH.
Qed.

Lemma replace_fields (k : nat) (w : str) (rest : list (nat * str)) :
  1 <= k -> is_word w = true -> words_ok rest ->
  replace (spaces k) [sp] (w ++ gapped rest)
  = w ++ gapped (map (fun nw => (run_after k (fst nw), snd nw)) rest).
Proof.
  intros Hk Hw Hrest. destruct k as [|k]; [lia|]. rewrite spaces_S.
  rewrite replace_prefix_copied by now apply word_no_sp.
  f_equal. rewrite <- spaces_S. now apply replace_gapped.
Qed.

Lemma words_ok_map (f : nat -> nat) (rest : list (nat * str)) :
  words_ok rest -> words_ok (map (fun nw => (f (fst nw), snd nw)) rest).
Proof.
  unfold words_ok. rewrite !Forall_forall. intros H x Hx.
  apply in_map_iff in Hx as [y [<- Hy]]. simpl. now apply H.
Qed.

(** The first loop works on the runs of spaces, each on its own. *)
Lemma collapse_spaces_fields (w : str) (rest : list (nat * str)) :
  is_word w = true -> words_ok rest ->
  collapse_spaces (w ++ gapped rest)
  = w ++ gapped (map (fun nw => (collapsed_run (fst nw), snd nw)) rest).
Proof.
  intros Hw. unfold collapse_spaces, collapsed_run.
  generalize space_nums_pos. generalize space_nums as ks.
  intros ks; revert rest. induction ks as [|k ks IH]; intros rest Hks Hrest.
  - simpl. f_equal. f_equal. rewrite <- (map_id rest) at 1.
    apply map_ext. now intros [n x].
  - inversion Hks; subst. simpl.
    rewrite replace_fields by assumption.
    rewrite IH; [|assumption | now apply words_ok_map].
    now rewrite map_map.
Qed.

Lemma collapsed_run_one (n : nat) : 1 <= n <= 19 -> collapsed_run n = 1.
Proof.
  intros H.
  assert (E : forallb (fun n => collapsed_run n =? 1) (seq 1 19) = true)
    by (vm_compute; reflexivity).
  rewrite forallb_forall in E. apply Nat.eqb_eq, E, in_seq. lia.
Qed.

(** *** A conforming line through the three loops *)

Lemma conforming_words (w : str) (rest : list (nat * str)) :
  conforming_line (Some (w, rest)) = true ->
  is_word w = true /\ words_ok rest
  /\ Forall (fun nw => 1 <= fst nw <= 19) rest.
Proof.
  unfold conforming_line. intros H.
  apply andb_true_iff in H as [Hw H]. split; [exact Hw|].
  rewrite forallb_forall in H.
  split; apply Forall_forall; intros x Hx; specialize (H x Hx);
    apply andb_true_iff in H as [H1 H2]; [exact H2|].
  apply andb_true_iff in H1 as [Ha Hb].
  apply Nat.leb_le in Ha, Hb. lia.
Qed.

Lemma join_char (u : ascii) (w : str) (ws : list str) :
  join [u] (w :: ws) = w ++ flat_map (fun x => u :: x) ws.
Proof.
  revert w; induction ws as [|x ws IH]; intros w.
  - simpl. now rewrite app_nil_r.
  - change (join [u] (w :: x :: ws)) with (w ++ [u] ++ join [u] (x :: ws)).
    rewrite IH. reflexivity.
Qed.

Lemma gapped_single (rest : list (nat * str)) :
  Forall (fun nw => 1 <= fst nw <= 19) rest ->
  gapped (map (fun nw => (collapsed_run (fst nw), snd nw)) rest)
  = flat_map (fun x => sp :: x) (map snd rest).
Proof.
  induction 1 as [|[n w] rest Hn _ IH]; [reflexivity|].
  unfold gapped in *. cbn [map flat_map fst snd] in *. rewrite IH.
  rewrite (collapsed_run_one Hn). reflexivity.
Qed.

(** The first loop leaves the fields one space apart. *)
Lemma collapse_spaces_conforming (d : fields_line) :
  conforming_line d = true ->
  collapse_spaces (render d) = join [sp] (fields d).
Proof.
  destruct d as [[w rest]|]; intros H.
  - destruct (conforming_words w rest H) as [Hw [Hrest Hn]].
    cbn [render fields]. rewrite collapse_spaces_fields by assumption.
    rewrite join_char. f_equal. now apply gapped_single.
  - cbn [render fields join]. apply collapse_spaces_no_space. intros [].
Qed.

Lemma map_no_sp (w : str) :
  ~ In sp w -> map (fun c => if Ascii.eqb sp c then tab else c) w = w.
Proof.
  induction w as [|c w IH]; intros H; [reflexivity|]. simpl.
  destruct (Ascii.eqb sp c) eqn:E.
  - apply Ascii.eqb_eq in E. exfalso. apply H. now left.
  - f_equal. apply IH. intros Hin. apply H. now right.
Qed.

(** The third loop on fields one space apart. *)
Lemma spaces_to_tabs_joined (ws : list str) :
  Forall (fun w => ~ In sp w) ws ->
  spaces_to_tabs (join [sp] ws) = join [tab] ws.
Proof.
  intros H. rewrite spaces_to_tabs_map.
  destruct ws as [|w ws]; [reflexivity|].
  rewrite !join_char, map_app. inversion H as [|? ? Hw Hws]; subst.
  rewrite (@map_no_sp _ Hw). f_equal. clear H Hw w.
  induction Hws as [|x ws Hx _ IH]; [reflexivity|].
  simpl. rewrite map_app, (@map_no_sp _ Hx). now rewrite IH.
Qed.

Lemma fields_no_sp (d : fields_line) :
  conforming_line d = true -> Forall (fun w => ~ In sp w) (fields d).
Proof.
  destruct d as [[w rest]|]; intros H; [|constructor].
  destruct (conforming_words w rest H) as [Hw [Hrest _]].
  simpl. constructor; [now apply word_no_sp|].
  apply Forall_forall. intros x Hx. apply in_map_iff in Hx as [[n y] [<- Hy]].
  unfold words_ok in Hrest. rewrite Forall_forall in Hrest.
  now apply word_no_sp, (Hrest (n, y)).
Qed.

(** A conforming line without a label comes out with its fields one tab
    apart. *)
Lemma reformat_conforming (d : fields_line) :
  conforming_line d = true -> label_free d = true ->
  spaces_to_tabs (underscore_labels (collapse_spaces (render d)))
  = join [tab] (fields d).
Proof.
  intros Hc Hl. rewrite (collapse_spaces_conforming d Hc).
  unfold label_free in Hl. apply andb_true_iff in Hl as [H1 H2].
  apply negb_true_iff in H1, H2.
  unfold underscore_labels.
  rewrite (@replace_absent _ label_bacterial_ _ H1).
  rewrite (@replace_absent _ label_archaeal_ _ H2).
  now apply spaces_to_tabs_joined, fields_no_sp.
Qed.

(** *** Reading a conforming file *)

Lemma line_ends (w : str) (rest : list (nat * str)) :
  is_word w = true -> words_ok rest ->
  exists a d, w ++ gapped rest = a ++ [d] /\ isspace d = false.
Proof.
  intros Hw Hrest. revert w Hw.
  induction Hrest as [|[n x] rest Hx _ IH]; intros w Hw.
  - destruct (is_word_spec w Hw) as [Hne Hall].
    destruct (ends w) as [->|[a [d [E _]]]]; [contradiction|].
    exists a, d. unfold gapped. simpl. rewrite app_nil_r. split; [exact E|].
    apply Hall. rewrite E. apply in_or_app. right. now left.
  - simpl in Hx. destruct (IH x Hx) as [a [d [E Hd]]].
    exists (w ++ spaces n ++ a), d. split; [|exact Hd].
    unfold gapped in *. simpl. rewrite <- !app_assoc. now rewrite E.
Qed.

Lemma render_trimmed (d : fields_line) :
  conforming_line d = true -> trimmed (render d).
Proof.
  destruct d as [[w rest]|]; intros H; [|apply trimmed_nil].
  destruct (conforming_words w rest H) as [Hw [Hrest _]].
  destruct (@line_ends w rest Hw Hrest) as [a [e [E He]]].
  destruct (is_word_spec w Hw) as [Hne Hall].
  destruct w as [|c w]; [contradiction|].
  simpl. simpl in E. apply (@trimmed_intro _ _ a e E); [|exact He].
  apply Hall. now left.
Qed.

Lemma render_no_nl (d : fields_line) :
  conforming_line d = true -> no_nl (render d).
Proof.
  destruct d as [[w rest]|]; intros H; [|intros []].
  destruct (conforming_words w rest H) as [Hw [Hrest _]].
  simpl. intros Hin. apply in_app_or in Hin as [Hin|Hin].
  - destruct (is_word_spec w Hw) as [_ Hall].
    specialize (Hall nl Hin). discriminate Hall.
  - unfold gapped in Hin. apply in_flat_map in Hin as [[n x] [Hx Hin]].
    simpl in Hin. apply in_app_or in Hin as [Hin|Hin].
    + apply In_spaces in Hin. discriminate Hin.
    + unfold words_ok in Hrest. rewrite Forall_forall in Hrest.
      destruct (is_word_spec x (Hrest (n, x) Hx)) as [_ Hall].
      specialize (Hall nl Hin). discriminate Hall.
Qed.

(** The lines read from a conforming file are its data lines. *)
Lemma read_lines_conforming (ls : list input_line) :
  conforming_input ls = true ->
  read_lines (file_text ls) = map render (data_lines ls).
Proof.
  unfold read_lines. induction ls as [|l ls IH]; intros H; [reflexivity|].
  simpl in H. apply andb_true_iff in H as [Hl H].
  unfold file_text. cbn [flat_map]. rewrite <- app_assoc. simpl ([nl] ++ _).
  fold (file_text ls). destruct l as [text|d].
  - rewrite readlines_line.
    + simpl. now apply IH.
    + simpl. intros [Hin|Hin]; [discriminate Hin|].
      now apply (@no_newline_no_nl _ Hl).
  - apply andb_true_iff in Hl as [Hd Hc].
    rewrite readlines_line by now apply render_no_nl.
    cbn [filter line_text]. rewrite (@not_comment_line _ Hc).
    cbn [map data_lines flat_map app]. f_equal; [|now apply IH].
    rewrite strip_app_space by reflexivity.
    now apply strip_trimmed, render_trimmed.
Qed.

Lemma conforming_data (ls : list input_line) (d : fields_line) :
  conforming_input ls = true -> In d (data_lines ls) ->
  conforming_line d = true /\ not_comment (render d) = true.
Proof.
  unfold conforming_input. rewrite forallb_forall. intros H Hd.
  unfold data_lines in Hd. apply in_flat_map in Hd as [l [Hl Hin]].
  specialize (H l Hl). destruct l as [text|d']; [destruct Hin|].
  destruct Hin as [<-|[]]. now apply andb_true_iff in H.
Qed.

(** C4, as the code has it.  For every input file whose lines are comments
    and lines of single-word fields 1 to 19 spaces apart, in which neither of
    the two labels occurs among the fields once they stand one space apart:
    the written file is the header, then for each data line its fields with
    exactly one tab between two neighbours, each line closed by a newline. *)
Theorem reformat_tblout_conforming (ls : list input_line) (header : str) :
  conforming_input ls = true ->
  forallb label_free (data_lines ls) = true ->
  reformat_tblout (file_text ls) header
  = header ++ [nl]
    ++ join [nl] (map (fun d => join [tab] (fields d)) (data_lines ls))
    ++ [nl].
Proof.
  intros Hc Hl. unfold reformat_tblout, reformat_lines.
  rewrite (@read_lines_conforming ls Hc), !map_map.
  assert (E : map (fun d => spaces_to_tabs
                              (underscore_labels (collapse_spaces (render d))))
                (data_lines ls)
              = map (fun d => join [tab] (fields d)) (data_lines ls)).
  { apply map_ext_in. intros d Hd.
    destruct (@conforming_data ls d Hc Hd) as [H1 _].
    rewrite forallb_forall in Hl. now apply reformat_conforming, Hl. }
  now rewrite E.
Qed.

(** *** The first character of a written line *)

Lemma collapse_spaces_hd (c : ascii) (t : str) :
  c <> sp -> exists t', collapse_spaces (c :: t) = c :: t'.
Proof.
  intros Hc. unfold collapse_spaces. generalize space_nums_pos.
  generalize space_nums as ks. intros ks; revert t.
  induction ks as [|k ks IH]; intros t Hks; [now exists t|].
  inversion Hks; subst. simpl. destruct k as [|k]; [lia|].
  rewrite spaces_S, replace_head by (intros E; now apply Hc).
  now apply IH.
Qed.

Lemma pointwise_hd (u c : ascii) (t s' : str) :
  c <> sp -> Forall2 (space_to u) (c :: t) s' -> exists t', s' = c :: t'.
Proof.
  intros Hc H. inversion H as [|? c' ? t' Hcc _]; subst.
  exists t'. destruct Hcc as [->|[E _]]; [reflexivity | contradiction].
Qed.

(** The three loops keep the first character of a trimmed line, so a line
    that is no comment before them is none behind them. *)
Lemma reformat_not_comment (s : str) :
  trimmed s -> not_comment s = true ->
  not_comment (spaces_to_tabs (underscore_labels (collapse_spaces s))) = true.
Proof.
  intros Ht Hc. destruct s as [|c t].
  - rewrite collapse_spaces_no_space by (intros []). reflexivity.
  - assert (Hsp : c <> sp).
    { apply isspace_not_sp, Ht. now left. }
    destruct (@collapse_spaces_hd c t Hsp) as [t1 E1]. rewrite E1.
    destruct (underscore_labels_pointwise (c :: t1)) as [s1 [H1 H2]].
    destruct (@pointwise_hd _ _ _ _ Hsp H1) as [t2 ->].
    destruct (@pointwise_hd _ _ _ _ Hsp H2) as [t3 E3]. rewrite E3.
    destruct (@pointwise_hd _ _ _ _ Hsp (spaces_to_tabs_pointwise (c :: t3))) as [t4 ->].
    exact Hc.
Qed.

(** C5.  For every conforming input file and every header of one line:
    [reformat_tblout] run on the file it wrote, the header line taken away
    and the same header given again, writes the same text, byte for byte. *)
Theorem reformat_tblout_idempotent (ls : list input_line) (header : str) :
  no_newline header = true ->
  conforming_input ls = true ->
  reformat_tblout (drop_header (reformat_tblout (file_text ls) header)) header
  = reformat_tblout (file_text ls) header.
Proof.
  intros Hh Hc. apply reformat_twice; [exact Hh|].
  unfold reformat_lines. rewrite (@read_lines_conforming ls Hc), !map_map.
  apply forallb_forall. intros x Hx.
  apply in_map_iff in Hx as [d [<- Hd]].
  destruct (@conforming_data ls d Hc Hd) as [H1 H2].
  apply reformat_not_comment; [now apply render_trimmed | exact H2].
Qed.

End TbloutFields.

(** ** [reformat_tblout] on the sample files *)

Module TbloutExamples.
Import PyStr Tblout TbloutFacts TbloutFields.

(** The sample file is conforming and free of labels, and is written with
    one tab between the fields. *)
Lemma reformat_tblout_conforming_witness :
  conforming_input sample_input = true
  /\ forallb label_free (data_lines sample_input) = true
  /\ reformat_tblout (file_text sample_input) tblout_header
     = tblout_header ++ [nl]
       ++ join [nl] (map (fun d => join [tab] (fields d))
                         (data_lines sample_input))
       ++ [nl].
Proof.
  split; [vm_compute; reflexivity|]. split; [vm_compute; reflexivity|].
  apply (@TbloutFields.reformat_tblout_conforming sample_input tblout_header);
    vm_compute; reflexivity.
Defined.

(** C4 as stated fails: the five fields [Bacterial], [small], [subunit],
    [ribosomal], [RNA] are single words one space apart, and the line is
    written as one field, with no tab in it. *)
Lemma label_words_counterexample :
  conforming_input label_words_input = true
  /\ map (fun d => length (fields d)) (data_lines label_words_input) = [5]
  /\ lines_behind_header
       (reformat_tblout (file_text label_words_input) tblout_header)
     = [label_bacterial_]
  /\ forallb (fun c => negb (Ascii.eqb c tab)) label_bacterial_ = true.
Proof. repeat split; vm_compute; reflexivity. Qed.

Lemma reformat_tblout_idempotent_witness :
  no_newline tblout_header = true
  /\ conforming_input sample_input = true
  /\ reformat_tblout
       (drop_header (reformat_tblout (file_text sample_input) tblout_header))
       tblout_header
     = reformat_tblout (file_text sample_input) tblout_header.
Proof.
  split; [vm_compute; reflexivity|]. split; [vm_compute; reflexivity|].
  apply (@TbloutFields.reformat_tblout_idempotent sample_input tblout_header);
    vm_compute; reflexivity.
Defined.

Lemma written_lines_tab_delimited_witness :
  no_newline tblout_header = true
  /\ (let content := file_text sample_input in
      let written := map reformat_line (filter not_comment (readlines content)) in
      Forall (fun l => ~ In sp l)
             (lines_behind_header (reformat_tblout content tblout_header))
      /\ (written <> [] ->
          lines_behind_header (reformat_tblout content tblout_header) = written)
      /\ (written = [] ->
          lines_behind_header (reformat_tblout content tblout_header) = [[]])).
Proof.
  split; [vm_compute; reflexivity|].
  apply (@TbloutFacts.written_lines_tab_delimited
           (file_text sample_input) tblout_header).
  vm_compute; reflexivity.
Defined.

(** C10 as stated fails on a file without data lines: no line of the input
    is a non-comment line, and the written file holds one line behind the
    header. *)
Lemma no_data_line_counterexample :
  length (filter not_comment (readlines (file_text comments_only_input))) = 0
  /\ length (lines_behind_header
               (reformat_tblout (file_text comments_only_input) tblout_header))
     = 1.
Proof. split; vm_compute; reflexivity. Qed.

End TbloutExamples.
